(** * Traced "complex operation" workflow of the Flask demo (flask_app/app.py)

    The development embeds the request handler [complex_operation] and its
    two helpers [async_operation] and [external_api_call] as functions over
    an explicit tracer state.  What the handler takes from its libraries is
    modelled as follows.

    - [tracer.start_as_current_span(name)] is the context manager of the
      OpenTelemetry API: on entry it creates a span whose parent is the
      current span of the calling context and makes it current; on exit it
      restores the previous current span, records an error status when the
      body left by an exception, ends the span and hands it to the span
      processor ([on_end]).  A body that leaves normally keeps the status
      the span was created with, which the specification calls success.
    - [await asyncio.sleep(d)] lets [d] units of time pass.  The work of a
      phase is the body of its [with] block; the environment says, for each
      body, how long it sleeps and whether an exception is raised when it
      resumes.
    - [asyncio.gather] wraps each coroutine in a task holding a copy of the
      caller's context and runs the tasks on the single threaded event loop.
      The caller is resumed when all have returned or, the call in the source
      leaving [return_exceptions] at its default, with the first exception
      raised, once the tasks whose timers are due at that same time have
      taken their step; tasks due later are left suspended.
    - [requests.get] either raises (transport failure) or returns a response
      with a status code and a body; [response.json()] decodes the body or
      raises.
    - Times are natural numbers of an arbitrary unit of the monotonic clock;
      the draws of [random.uniform] are inputs.

    Spans added by the Flask and requests auto-instrumentation are created
    inside those libraries and are not part of the model, and the model ends
    when the handler returns or raises. *)

From Stdlib Require Import String List Arith Lia Bool DecimalString.
From stdpp Require Import base list strings.
Import ListNotations.
Open Scope string_scope.
Open Scope nat_scope.

(** ** Data *)

(** A JSON document, as [response.json()] returns it and as Flask receives
    it from the handler. *)
#[warnings="-register-all"]
Inductive json : Type :=
| JNull
| JBool (b : bool)
| JNumber (n : Z)
| JString (s : string)
| JArray (items : list json)
| JObject (members : list (string * json)).

(** An exception is identified by the text the tracer records for it
    (type name and message). *)
Definition exn := string.

Inductive outcome (A : Type) : Type :=
| Returned (a : A)
| Raised (e : exn).
Arguments Returned {A} a.
Arguments Raised {A} e.

Inductive Status : Type :=
| Success
| Error (detail : string).

Record span := mkSpan {
  name : string;
  span_id : nat;
  parent_span_id : option nat;
  task : nat;                 (* 0: the handler's coroutine; i: i-th gathered task *)
  start_time : nat;
  end_time : option nat;
  status : Status
}.

Inductive event : Type :=
| Opened (id : nat)
| Closed (id : nat).

Record log_record := mkLog {
  log_span : option nat;      (* span current when the record was emitted *)
  log_message : string
}.

(** The process-wide state the handler acts on: the clock, the spans the
    tracer has created (a span's identifier is its position), the spans
    handed to the span processor in the order of their end, the order of
    open and close operations, the log and the outbound requests made. *)
Record tracer_state := mkState {
  now : nat;
  spans : list span;
  processor_queue : list nat;
  events : list event;
  logs : list log_record;
  requests_sent : list string
}.

Definition initial_state : tracer_state :=
  mkState 0 [] [] [] [] [].

(** The context of an execution path: its current span and its task. *)
Record context := mkContext {
  current_span : option nat;
  current_task : nat
}.

Definition root_context : context := mkContext None 0.

(** ** Computations of one execution path *)

Definition M (A : Type) : Type :=
  context -> tracer_state -> outcome A * tracer_state.

Definition ret {A} (a : A) : M A := fun _ st => (Returned a, st).

Definition raise {A} (e : exn) : M A := fun _ st => (Raised e, st).

Definition bind {A B} (m : M A) (k : A -> M B) : M B :=
  fun ctx st =>
    match m ctx st with
    | (Returned a, st1) => k a ctx st1
    | (Raised e, st1) => (Raised e, st1)
    end.

Declare Scope tracer_scope.
Delimit Scope tracer_scope with tracer.
Notation "x <- c1 ;; c2" := (bind c1 (fun x => c2))
  (at level 100, c1 at next level, right associativity) : tracer_scope.
Notation "c1 ;; c2" := (bind c1 (fun _ => c2))
  (at level 100, right associativity) : tracer_scope.
Open Scope tracer_scope.

(** ** The tracer *)

Definition status_of {A} (r : outcome A) : Status :=
  match r with
  | Returned _ => Success
  | Raised e => Error e
  end.

(** Entry of [with tracer.start_as_current_span(nm)]. *)
Definition span_enter (nm : string) (ctx : context) (st : tracer_state)
  : nat * tracer_state :=
  let id := length (spans st) in
  let s := mkSpan nm id (current_span ctx) (current_task ctx) (now st) None Success in
  (id, mkState (now st) (spans st ++ [s]) (processor_queue st)
               (events st ++ [Opened id]) (logs st) (requests_sent st)).

Definition finish (t : nat) (final : Status) (s : span) : span :=
  mkSpan (name s) (span_id s) (parent_span_id s) (task s) (start_time s) (Some t) final.

(** Exit of the [with] block: the span ends and goes to the processor. *)
Definition span_exit {A} (id : nat) (r : outcome A) (st : tracer_state)
  : tracer_state :=
  mkState (now st) (alter (finish (now st) (status_of r)) id (spans st))
          (processor_queue st ++ [id]) (events st ++ [Closed id])
          (logs st) (requests_sent st).

Definition start_as_current_span {A} (nm : string) (body : M A) : M A :=
  fun ctx st =>
    let '(id, st1) := span_enter nm ctx st in
    let '(r, st2) := body (mkContext (Some id) (current_task ctx)) st1 in
    (r, span_exit id r st2).

Definition logger_info (msg : string) : M unit :=
  fun ctx st =>
    (Returned tt,
     mkState (now st) (spans st) (processor_queue st) (events st)
             (logs st ++ [mkLog (current_span ctx) msg]) (requests_sent st)).

(** ** asyncio *)

(** What one [await asyncio.sleep(random.uniform(..))] does: the time that
    passes and the exception met on resumption, if any. *)
Record await_result := mkAwait {
  delay : nat;
  thrown : option exn
}.

(** The monotonic clock reaches [t], if it has not passed it already. *)
Definition advance (t : nat) (st : tracer_state) : tracer_state :=
  mkState (Nat.max (now st) t) (spans st) (processor_queue st) (events st)
          (logs st) (requests_sent st).

Definition elapse (d : nat) (st : tracer_state) : tracer_state :=
  mkState (now st + d) (spans st) (processor_queue st) (events st)
          (logs st) (requests_sent st).

Definition resumption (w : await_result) : outcome unit :=
  match thrown w with
  | Some e => Raised e
  | None => Returned tt
  end.

(** A sleep on a path that is alone on the event loop. *)
Definition asyncio_sleep (w : await_result) : M unit :=
  fun _ st => (resumption w, elapse (delay w) st).

(** A coroutine run up to its first [await]: the time at which the loop
    resumes it and the rest of its body. *)
Record suspended := mkSuspended {
  resume_at : nat;
  resume : tracer_state -> outcome unit * tracer_state
}.

Definition coroutine : Type := context -> tracer_state -> suspended * tracer_state.

Fixpoint spawn_all (ctx : context) (i : nat) (cs : list coroutine)
  (st : tracer_state) : list suspended * tracer_state :=
  match cs with
  | [] => ([], st)
  | c :: cs' =>
      let '(p, st1) := c (mkContext (current_span ctx) i) st in
      let '(ps, st2) := spawn_all ctx (S i) cs' st1 in
      (p :: ps, st2)
  end.

(** Timers fire in the order of their due times; among equal due times the
    task scheduled first goes first. *)
Fixpoint schedule (p : suspended) (ps : list suspended) : list suspended :=
  match ps with
  | [] => [p]
  | q :: qs =>
      if resume_at p <? resume_at q then p :: q :: qs
      else q :: schedule p qs
  end.

Definition timer_order (ps : list suspended) : list suspended :=
  fold_left (fun acc p => schedule p acc) ps [].

(** The tasks whose timers are due by [t] take their step in the same pass
    of the loop, before any callback of a finished task runs. *)
Fixpoint run_due (t : nat) (ps : list suspended) (st : tracer_state)
  : tracer_state :=
  match ps with
  | [] => st
  | p :: rest =>
      if resume_at p <=? t then run_due t rest (snd (resume p st)) else st
  end.

Fixpoint run_until_first_exception (ps : list suspended) (st : tracer_state)
  : outcome unit * tracer_state :=
  match ps with
  | [] => (Returned tt, st)
  | p :: rest =>
      match resume p (advance (resume_at p) st) with
      | (Returned _, st1) => run_until_first_exception rest st1
      | (Raised e, st1) => (Raised e, run_due (now st1) rest st1)
      end
  end.

(** [await asyncio.gather(c1, .., cn)]: the first exception is propagated
    to the awaiting coroutine as soon as the loop has run the tasks due at
    that time; the tasks still suspended are neither cancelled nor
    awaited. *)
Definition gather (cs : list coroutine) : M unit :=
  fun ctx st =>
    let '(ps, st1) := spawn_all ctx 1 cs st in
    run_until_first_exception (timer_order ps) st1.

(** ** requests *)

Inductive http_reply : Type :=
| TransportFailure (e : exn)
| Response (status_code : nat) (body : outcome json).

Record http_exchange := mkExchange {
  elapsed : nat;
  reply : http_reply
}.

Record response := mkResponse {
  response_status_code : nat;
  response_body : outcome json
}.

Definition requests_get (net : http_exchange) (url : string) : M response :=
  fun _ st =>
    let st1 := mkState (now st + elapsed net) (spans st) (processor_queue st)
                       (events st) (logs st) (requests_sent st ++ [url]) in
    match reply net with
    | TransportFailure e => (Raised e, st1)
    | Response code body => (Returned (mkResponse code body), st1)
    end.

Definition response_json (r : response) : M json :=
  match response_body r with
  | Returned j => ret j
  | Raised e => raise e
  end.

Definition decimal (n : nat) : string := NilEmpty.string_of_uint (Nat.to_uint n).
Arguments decimal : simpl never.

(** ** The environment of one invocation *)

Record environment := mkEnv {
  database_query_sleep : await_result;
  processing_sleep : await_result;
  task1_sleep : await_result;
  task2_sleep : await_result;
  task3_sleep : await_result;
  network : http_exchange;
  final_computation_sleep : await_result
}.

(** ** The source functions *)

(** [async def async_operation(name)] *)
Definition async_operation (nm : string) (w : await_result) : coroutine :=
  fun ctx st =>
    let '(id, st1) := span_enter ("async_" ++ nm) ctx st in
    (mkSuspended (now st1 + delay w)
       (fun st2 =>
          let '(r, st3) :=
            (match thrown w with
             | Some e => raise e
             | None => logger_info ("Async operation " ++ nm ++ " completed")
             end) (mkContext (Some id) (current_task ctx)) st2 in
          (r, span_exit id r st3)),
     st1).

(** [def external_api_call(url)] *)
Definition external_api_call (net : http_exchange) (url : string) : M json :=
  start_as_current_span "external_api_call"
    (response <- requests_get net url ;;
     logger_info ("External API call to " ++ url ++ " completed with status "
                  ++ decimal (response_status_code response)) ;;
     response_json response).

(** [async def complex_operation()] *)
Definition complex_operation (env : environment) : M json :=
  start_as_current_span "complex_operation"
    (logger_info "Starting complex operation" ;;
     start_as_current_span "database_query"
       (asyncio_sleep (database_query_sleep env) ;;
        logger_info "Database query completed") ;;
     start_as_current_span "processing"
       (asyncio_sleep (processing_sleep env) ;;
        logger_info "Data processing completed") ;;
     gather [async_operation "task1" (task1_sleep env);
             async_operation "task2" (task2_sleep env);
             async_operation "task3" (task3_sleep env)] ;;
     external_data <- external_api_call (network env)
                        "https://jsonplaceholder.typicode.com/todos/1" ;;
     start_as_current_span "final_computation"
       (asyncio_sleep (final_computation_sleep env) ;;
        logger_info "Final computation completed") ;;
     ret (JObject [("message", JString "Complex operation completed");
                   ("external_data", external_data)])).

(** [async_action]: a fresh event loop runs the handler to completion and is
    closed; tasks still suspended at that point are never resumed. *)
Definition async_action {A} (f : M A) : outcome A * tracer_state :=
  f root_context initial_state.

Definition invoke (env : environment) : outcome json * tracer_state :=
  async_action (complex_operation env).

(** ** Vocabulary of the statements *)

Definition final_state (env : environment) : tracer_state := snd (invoke env).

Definition result (env : environment) : outcome json := fst (invoke env).

Definition canonical_order : list string :=
  ["complex_operation"; "database_query"; "processing";
   "async_task1"; "async_task2"; "async_task3";
   "external_api_call"; "final_computation"].

Definition has_parent (s : span) : bool :=
  match parent_span_id s with Some _ => true | None => false end.

(** The spans of a trace other than its root. *)
Definition descendants (st : tracer_state) : list span :=
  filter (fun s => has_parent s = true) (spans st).

Definition completed (s : span) : Prop := end_time s <> None.

(** What the external call raises, if it raises. *)
Definition external_failure (net : http_exchange) : option exn :=
  match reply net with
  | TransportFailure e => Some e
  | Response _ (Raised e) => Some e
  | Response _ (Returned _) => None
  end.

Definition external_data_of (net : http_exchange) : option json :=
  match reply net with
  | Response _ (Returned j) => Some j
  | _ => None
  end.

Definition sub_tasks_succeed (env : environment) : Prop :=
  thrown (task1_sleep env) = None /\ thrown (task2_sleep env) = None /\
  thrown (task3_sleep env) = None.

Definition all_phases_succeed (env : environment) : Prop :=
  thrown (database_query_sleep env) = None /\
  thrown (processing_sleep env) = None /\
  sub_tasks_succeed env /\
  external_failure (network env) = None /\
  thrown (final_computation_sleep env) = None.

Definition success_response (data : json) : json :=
  JObject [("message", JString "Complex operation completed");
           ("external_data", data)].

(** The outcome the specification calls non-success. *)
Definition non_success (net : http_exchange) : Prop :=
  match reply net with
  | TransportFailure _ => True
  | Response code _ => ~ (200 <= code < 300)
  end.

Definition spans_named (nm : string) (st : tracer_state) : list span :=
  filter (fun s => name s = nm) (spans st).

(** ** The sequential phases *)

Inductive step : Type :=
| DatabaseQuery
| Processing
| ExternalCall
| FinalComputation.

Definition step_span (p : step) : string :=
  match p with
  | DatabaseQuery => "database_query"
  | Processing => "processing"
  | ExternalCall => "external_api_call"
  | FinalComputation => "final_computation"
  end.


(** The exception raised by the work of a phase, if any. *)
Definition work_failure (env : environment) (p : step) : option exn :=
  match p with
  | DatabaseQuery => thrown (database_query_sleep env)
  | Processing => thrown (processing_sleep env)
  | ExternalCall => external_failure (network env)
  | FinalComputation => thrown (final_computation_sleep env)
  end.

Definition no_exception (x : option exn) : bool :=
  match x with Some _ => false | None => true end.

Definition fan_out_reached (env : environment) : bool :=
  no_exception (thrown (database_query_sleep env)) &&
  no_exception (thrown (processing_sleep env)).

Definition fan_out_succeeds (env : environment) : bool :=
  no_exception (thrown (task1_sleep env)) &&
  no_exception (thrown (task2_sleep env)) &&
  no_exception (thrown (task3_sleep env)).

(** A phase is reached when every phase before it has succeeded. *)
Definition reached (env : environment) (p : step) : bool :=
  match p with
  | DatabaseQuery => true
  | Processing => no_exception (thrown (database_query_sleep env))
  | ExternalCall => fan_out_reached env && fan_out_succeeds env
  | FinalComputation =>
      fan_out_reached env && fan_out_succeeds env &&
      no_exception (external_failure (network env))
  end.

(** Number of spans an invocation opens: all eight, or those up to the
    phase that fails first. *)
Definition spans_opened (env : environment) : nat :=
  if negb (reached env Processing) then 2
  else if negb (fan_out_reached env) then 3
  else if negb (reached env ExternalCall) then 6
  else if negb (reached env FinalComputation) then 7
  else 8.

Definition status_after (x : option exn) : Status :=
  match x with Some e => Error e | None => Success end.

Definition event_eqb (a b : event) : bool :=
  match a, b with
  | Opened i, Opened j => i =? j
  | Closed i, Closed j => i =? j
  | _, _ => false
  end.

Fixpoint first_index (a : event) (l : list event) : option nat :=
  match l with
  | [] => None
  | b :: l' => if event_eqb a b then Some 0
               else option_map S (first_index a l')
  end.

(** [a] occurs in [l], and [b] occurs only later. *)
Definition happens_before (a b : event) (l : list event) : bool :=
  match first_index a l, first_index b l with
  | Some i, Some j => i <? j
  | _, _ => false
  end.

(** Span [a] is closed before span [b] is opened. *)
Definition closes_before_opening (st : tracer_state) (a b : span) : Prop :=
  happens_before (Closed (span_id a)) (Opened (span_id b)) (events st) = true.

Definition is_root (st : tracer_state) (r : span) : Prop :=
  spans st !! 0 = Some r /\ span_id r = 0 /\ parent_span_id r = None.

(** ** Intervals, sub-tasks and execution paths *)



Definition sub_task_spans (st : tracer_state) : list span :=
  filter (fun s => task s <> 0) (spans st).




Definition task_of (st : tracer_state) (id : nat) : nat :=
  match spans st !! id with
  | Some s => task s
  | None => 0
  end.

Definition event_span (ev : event) : nat :=
  match ev with Opened id | Closed id => id end.

(** The open and close operations of the spans of task [t], in order. *)
Definition path_events (st : tracer_state) (t : nat) : list event :=
  filter (fun ev => task_of st (event_span ev) = t) (events st).

(** Stack discipline: a close is accepted only for the span opened last
    among those still open. *)
Fixpoint replay (evs : list event) (open : list nat) : option (list nat) :=
  match evs with
  | [] => Some open
  | Opened id :: rest => replay rest (id :: open)
  | Closed id :: rest =>
      match open with
      | top :: below => if id =? top then replay rest below else None
      | [] => None
      end
  end.

#[local] Instance event_eq_dec : EqDecision event.
Proof. solve_decision. Defined.

Definition handler_spans (st : tracer_state) : list span :=
  filter (fun s => task s = 0) (spans st).

Module Exporter.

(** Modelled from the spec: the two settings of the configuration surface
    (section 6) that bound the buffer and the delivery attempts, and the
    backoff schedule of section 4.4, which the specification leaves open.
    The source passes only the collector endpoint. *)
Record config := mkConfig {
  buffer_capacity : nat;
  export_retry_limit : nat;
  backoff : nat -> nat        (* wait after the k-th failed attempt *)
}.

(** Modelled from the spec: the terminal states of a batch (section 4.4). *)
Inductive batch_state : Type :=
| Delivered
| DroppedDeliveryExhausted.

(** Modelled from the spec: the exporter state of section 4.4, a buffer of
    completed spans (oldest first), the drop counter, the failure counter
    and the batches the collector has accepted. *)
Record exporter := mkExporter {
  buffer : list span;
  drop_counter : nat;
  failure_counter : nat;
  delivered : list (list span)
}.

Definition empty : exporter := mkExporter [] 0 0 [].

(** Modelled from the spec: [submit] of section 4.4, which is missing from
    the source.  The span is appended; when the buffer exceeds the capacity
    the oldest spans are dropped and counted.  It returns the new state and
    nothing else: the producer is never made to wait and never sees an
    error. *)
Definition submit (cfg : config) (ex : exporter) (s : span) : exporter :=
  let b := (buffer ex ++ [s])%list in
  let excess := length b - buffer_capacity cfg in
  mkExporter (drop excess b) (drop_counter ex + excess)
             (failure_counter ex) (delivered ex).

Definition submit_all (cfg : config) (ex : exporter) (ss : list span) : exporter :=
  fold_left (submit cfg) ss ex.

(** Modelled from the spec: the delivery attempts of [flush] (section 4.4),
    missing from the source.  Attempts are numbered from [attempt] and at
    most [remaining] of them are made; the result is the state of the batch
    and the number of attempts made. *)
Fixpoint deliver (collector : nat -> list span -> bool) (batch : list span)
  (attempt remaining : nat) : batch_state * nat :=
  match remaining with
  | 0 => (DroppedDeliveryExhausted, 0)
  | S remaining' =>
      if collector attempt batch then (Delivered, 1)
      else
        let '(st, n) := deliver collector batch (S attempt) remaining' in
        (st, S n)
  end.

Record flush_report := mkReport {
  final : batch_state;
  attempts : nat;
  waits : list nat            (* the wait before each attempt after the first *)
}.

(** Modelled from the spec: [flush] of section 4.4, missing from the source.
    The buffer is taken as one batch and discarded whatever the outcome. *)
Definition flush (cfg : config) (collector : nat -> list span -> bool)
  (ex : exporter) : flush_report * exporter :=
  let batch := buffer ex in
  let '(st, n) := deliver collector batch 1 (export_retry_limit cfg) in
  (mkReport st n (map (backoff cfg) (seq 1 (n - 1))),
   match st with
   | Delivered =>
       mkExporter [] (drop_counter ex) (failure_counter ex)
                  (delivered ex ++ [batch])
   | DroppedDeliveryExhausted =>
       mkExporter [] (drop_counter ex) (S (failure_counter ex)) (delivered ex)
   end).

(** Modelled from the spec: the handler with the exporter behind its
    tracer (section 2).  Completed spans are submitted in the order of
    their end and the buffer is flushed afterwards; the caller of the
    workflow receives the result of the handler only. *)
Definition traced_invocation (cfg : config) (collector : nat -> list span -> bool)
  (env : environment) : outcome json * (flush_report * exporter) :=
  let '(r, st) := invoke env in
  let completed_spans :=
    omap (fun id => spans st !! id) (processor_queue st) in
  (r, flush cfg collector (submit_all cfg empty completed_spans)).

End Exporter.

Import Exporter.

(** ** Sample environments *)

Definition ok (d : nat) : await_result := mkAwait d None.
Definition failing (d : nat) (e : exn) : await_result := mkAwait d (Some e).

Definition todo : json :=
  JObject [("userId", JNumber 1); ("id", JNumber 1);
           ("title", JString "delectus aut autem"); ("completed", JBool false)].

Definition env_ok : environment :=
  mkEnv (ok 2) (ok 3) (ok 4) (ok 1) (ok 5)
        (mkExchange 7 (Response 200 (Returned todo))) (ok 1).

Definition todos_url : string := "https://jsonplaceholder.typicode.com/todos/1".

Definition unavailable : json :=
  JObject [("error", JString "Service Unavailable")].

Definition env_503 : environment :=
  mkEnv (ok 2) (ok 3) (ok 4) (ok 1) (ok 5)
        (mkExchange 7 (Response 503 (Returned unavailable))) (ok 1).

Definition env_unreachable : environment :=
  mkEnv (ok 2) (ok 3) (ok 4) (ok 1) (ok 5)
        (mkExchange 30 (TransportFailure "ConnectionError: connection refused")) (ok 1).


Definition env_task1_fails : environment :=
  mkEnv (ok 2) (ok 3) (failing 1 "RuntimeError: task1") (ok 4) (ok 9)
        (mkExchange 7 (Response 200 (Returned todo))) (ok 1).

(** ** Vocabulary of the further properties *)

(** Time a fully successful invocation takes: the phases in sequence, the
    fan-out for as long as its slowest sub-task. *)
Definition expected_latency (env : environment) : nat :=
  delay (database_query_sleep env) + delay (processing_sleep env) +
  Nat.max (Nat.max (delay (task1_sleep env)) (delay (task2_sleep env)))
          (delay (task3_sleep env)) +
  elapsed (network env) + delay (final_computation_sleep env).

(** Time at which the fan-out starts. *)
Definition fan_out_start (env : environment) : nat :=
  delay (database_query_sleep env) + delay (processing_sleep env).

(** The log records emitted while span [id] was current. *)
Definition records_of (st : tracer_state) (id : nat) : list log_record :=
  filter (fun l => log_span l = Some id) (logs st).



Definition external_log (code : nat) : string :=
  "External API call to " ++ todos_url ++ " completed with status " ++ decimal code.

(** Among the sub-tasks that raise, the one resumed first: the smallest
    delay, the earlier argument of [gather] among equal delays. *)
Definition sooner (best : option await_result) (w : await_result)
  : option await_result :=
  match thrown w with
  | None => best
  | Some _ =>
      match best with
      | None => Some w
      | Some b => if delay w <? delay b then Some w else Some b
      end
  end.

Definition earliest_failure (env : environment) : option exn :=
  match fold_left sooner [task1_sleep env; task2_sleep env; task3_sleep env] None with
  | Some w => thrown w
  | None => None
  end.

(** The environment with another status code on the reply, if there is a
    reply. *)
Definition with_status_code (code : nat) (env : environment) : environment :=
  mkEnv (database_query_sleep env) (processing_sleep env)
        (task1_sleep env) (task2_sleep env) (task3_sleep env)
        (mkExchange (elapsed (network env))
           match reply (network env) with
           | TransportFailure e => TransportFailure e
           | Response _ body => Response code body
           end)
        (final_computation_sleep env).


(** ** Runs that differ only in what they log *)

(** Two states with the same clock, spans, hand-overs, events and requests:
    they may differ in their logs. *)
Definition same_trace (st1 st2 : tracer_state) : Prop :=
  now st1 = now st2 /\ spans st1 = spans st2 /\
  processor_queue st1 = processor_queue st2 /\
  events st1 = events st2 /\ requests_sent st1 = requests_sent st2.

Definition same_outcome {A B} (RV : A -> B -> Prop)
  (r1 : outcome A) (r2 : outcome B) : Prop :=
  match r1, r2 with
  | Returned a, Returned b => RV a b
  | Raised e1, Raised e2 => e1 = e2
  | _, _ => False
  end.

Definition related {A B} (RV : A -> B -> Prop)
  (r1 : outcome A * tracer_state) (r2 : outcome B * tracer_state) : Prop :=
  same_outcome RV (fst r1) (fst r2) /\ same_trace (snd r1) (snd r2).

(** Two computations that, from states with the same trace, end in states
    with the same trace and with outcomes related by [RV]. *)
Definition log_blind {A B} (RV : A -> B -> Prop) (m1 : M A) (m2 : M B) : Prop :=
  forall ctx st1 st2, same_trace st1 st2 -> related RV (m1 ctx st1) (m2 ctx st2).

Definition same_step (p q : suspended) : Prop :=
  resume_at p = resume_at q /\
  forall st1 st2, same_trace st1 st2 ->
                  related (fun _ _ => True) (resume p st1) (resume q st2).

Definition same_coroutine (c1 c2 : coroutine) : Prop :=
  forall ctx st1 st2, same_trace st1 st2 ->
    same_step (fst (c1 ctx st1)) (fst (c2 ctx st2)) /\
    same_trace (snd (c1 ctx st1)) (snd (c2 ctx st2)).

(** Replies that differ at most in their status code. *)
Definition same_reply (n1 n2 : http_exchange) : Prop :=
  elapsed n1 = elapsed n2 /\
  match reply n1, reply n2 with
  | TransportFailure e1, TransportFailure e2 => e1 = e2
  | Response _ b1, Response _ b2 => b1 = b2
  | _, _ => False
  end.

Definition same_body (r1 r2 : response) : Prop :=
  response_body r1 = response_body r2.

(** ** A request served by a process that has served others *)










Definition env_bad_body : environment :=
  mkEnv (ok 2) (ok 3) (ok 4) (ok 1) (ok 5)
        (mkExchange 7 (Response 200 (Raised "JSONDecodeError: Expecting value")))
        (ok 1).

Definition env_two_fail : environment :=
  mkEnv (ok 2) (ok 3) (failing 6 "RuntimeError: task1") (failing 4 "KeyError: task2")
        (ok 1) (mkExchange 7 (Response 200 (Returned todo))) (ok 1).

(** ** Sample exporter inputs *)

Definition sample (n : nat) : span := mkSpan "phase" n None 0 n (Some (S n)) Success.

Definition eight : list span := map sample (seq 0 8).

Definition refuses : nat -> list span -> bool := fun _ _ => false.
Definition accepts_second : nat -> list span -> bool := fun k _ => k =? 2.
Definition sample_config : config := mkConfig 5 3 (fun k => 2 ^ k).
Definition loaded : exporter := mkExporter (map sample (seq 0 2)) 0 0 [].

(** ** Proof automation: following the handler along one environment *)

Ltac open_env env :=
  destruct env as [[d_db x_db] [d_pr x_pr] [d1 x1] [d2 x2] [d3 x3]
                   [t_net r_net] [d_fin x_fin]].

Ltac evaluate_in E := cbv -[Nat.add Nat.max Nat.ltb Nat.leb decimal] in E.

(** The test on which the evaluation of [t] is stuck. *)
Ltac stuck_on t :=
  lazymatch t with
  | match ?x with _ => _ end => stuck_on x
  | ?f _ => stuck_on f
  | _ => t
  end.

Ltac branch_in E :=
  lazymatch type of E with
  | _ = ?rhs =>
      let c := stuck_on rhs in
      first [ is_var c; destruct c
            | match rhs with
              | context [?a <? ?b] => destruct (Nat.ltb_spec a b)
              | context [?a <=? ?b] => destruct (Nat.leb_spec a b)
              | context [match ?x with _ => _ end] => is_var x; destruct x
              end ]
  end.

Ltac project :=
  cbv beta iota delta [fst snd now spans processor_queue events logs requests_sent].

(** [follow] splits the run in the goal into its straight-line cases. *)
Ltac follow :=
  unfold final_state, result in *;
  match goal with
  | |- context [invoke ?env] =>
      let res := fresh "res" in
      let E := fresh "E" in
      remember (invoke env) as res eqn:E;
      evaluate_in E; repeat (branch_in E; evaluate_in E);
      subst res; project
  end.

(** Cases on the inputs a goal still tests. *)
Ltac settle :=
  repeat match goal with
    | |- context [match ?x with _ => _ end] => is_var x; destruct x
    end.

Ltac use_hyps :=
  repeat match goal with
    | H : context [match ?x with _ => _ end] |- _ =>
        is_var x; destruct x; cbn in H; try discriminate H
    end.

Ltac calc := cbv -[Nat.add Nat.max Nat.ltb Nat.leb decimal].

(** Cases on the inputs and comparisons a goal still tests. *)
Ltac settle_all :=
  repeat (first [ match goal with
                  | |- context [match ?x with _ => _ end] => is_var x; destruct x
                  end
                | match goal with
                  | |- context [?a <? ?b] => destruct (Nat.ltb_spec a b)
                  end ];
          calc).


(** * Properties of the handler *)

(** ** End-to-end run with every phase succeeding *)

(** C1, as amended: when every phase succeeds the trace is the root span
    [complex_operation] plus seven descendant spans, named database_query,
    processing, async_task1, async_task2, async_task3, external_api_call and
    final_computation, each a child of the root; all eight are completed with
    status success, and the handler returns the message together with the
    decoded body of the external reply. *)
Theorem all_success_trace (env : environment) (data : json) :
  all_phases_succeed env ->
  external_data_of (network env) = Some data ->
  result env = Returned (success_response data) /\
  map name (spans (final_state env)) = canonical_order /\
  length (descendants (final_state env)) = 7 /\
  Forall (fun s => parent_span_id s = Some 0) (descendants (final_state env)) /\
  Forall (fun s => status s = Success /\ completed s) (spans (final_state env)).
Proof.
  intros (Hdb & Hpr & (H1 & H2 & H3) & Hext & Hfin) Hdata.
  open_env env. cbn in *. subst.
  destruct r_net as [e | code [j | e]]; try discriminate.
  injection Hdata as ->.
  follow; cbn; (split; [reflexivity|]); (split; [reflexivity|]);
    (split; [reflexivity|]); split; repeat constructor; discriminate.
Qed.

Lemma all_success_trace_witness :
  result env_ok = Returned (success_response todo) /\
  map name (spans (final_state env_ok)) = canonical_order /\
  length (descendants (final_state env_ok)) = 7 /\
  Forall (fun s => parent_span_id s = Some 0) (descendants (final_state env_ok)) /\
  Forall (fun s => status s = Success /\ completed s) (spans (final_state env_ok)).
Proof.
  apply (all_success_trace env_ok todo).
  - repeat split; reflexivity.
  - reflexivity.
Defined.

(** C1 as stated fails: with every phase succeeding the root has seven
    descendants, not six, and no span is named task1 or external_call. *)
Lemma six_descendants_counterexample :
  all_phases_succeed env_ok /\
  length (descendants (final_state env_ok)) <> 6 /\
  ~ In "task1" (map name (spans (final_state env_ok))) /\
  ~ In "external_call" (map name (spans (final_state env_ok))).
Proof.
  split; [repeat split; reflexivity|].
  split; [vm_compute; discriminate|].
  split; vm_compute; intuition discriminate.
Qed.

(** ** Failure of the external call *)

(** C2, as amended: when the external call raises, that is on a transport
    failure or on a reply whose body does not decode as JSON, the
    external_api_call span is marked error and completed, the exception
    reaches the caller after exactly one outbound request, no
    final_computation span is created and the invocation ends with that
    exception instead of a response.  The status code of a reply is logged
    and otherwise ignored. *)
Theorem external_failure_aborts (env : environment) (e : exn) :
  reached env ExternalCall = true ->
  external_failure (network env) = Some e ->
  result env = Raised e /\
  (exists s, spans_named "external_api_call" (final_state env) = [s] /\
             status s = Error e /\ completed s) /\
  requests_sent (final_state env) = [todos_url] /\
  spans_named "final_computation" (final_state env) = [].
Proof.
  intros Hreach Hext. open_env env.
  unfold reached, fan_out_reached, fan_out_succeeds, no_exception,
    external_failure in *.
  cbn in Hreach, Hext. use_hyps; simplify_eq; follow.
  all: split; [reflexivity|].
  all: split; [eexists; split; [reflexivity|split; [reflexivity|discriminate]]|].
  all: split; reflexivity.
Qed.

Lemma external_failure_aborts_witness :
  result env_unreachable = Raised "ConnectionError: connection refused" /\
  (exists s, spans_named "external_api_call" (final_state env_unreachable) = [s] /\
             status s = Error "ConnectionError: connection refused" /\ completed s) /\
  requests_sent (final_state env_unreachable) = [todos_url] /\
  spans_named "final_computation" (final_state env_unreachable) = [].
Proof.
  apply (external_failure_aborts env_unreachable); reflexivity.
Defined.

(** C2 as stated fails on a reply with a non-2xx status and a JSON body:
    the external_api_call span keeps status success, the final_computation
    span is created and the invocation returns a response that carries
    external_data. *)
Lemma non_2xx_counterexample :
  non_success (network env_503) /\
  map status (spans_named "external_api_call" (final_state env_503)) = [Success] /\
  length (spans_named "final_computation" (final_state env_503)) = 1 /\
  result env_503 = Returned (success_response unavailable).
Proof.
  split; [cbn; lia|].
  split; [reflexivity|]. split; reflexivity.
Qed.

(** ** Order and spans of the sequential phases *)

(** C3: every invocation opens the root span complex_operation first; the
    spans are opened in the order database_query, processing, the three
    sub-tasks, external_api_call, final_computation, stopping at the first
    failure; a span of the handler's own path is closed before the next one
    is opened; and each sequential phase that is reached has exactly one
    span, a child of the root, completed with status error when the work of
    the phase raised and success otherwise. *)
Theorem phases_in_order (env : environment) :
  (exists r, is_root (final_state env) r /\ name r = "complex_operation" /\
             completed r) /\
  map name (spans (final_state env)) = take (spans_opened env) canonical_order /\
  ForallOrdPairs
    (fun a b => task a = 0 \/ task b = 0 ->
                closes_before_opening (final_state env) a b)
    (descendants (final_state env)) /\
  forall p : step,
    match spans_named (step_span p) (final_state env) with
    | [] => reached env p = false
    | [s] => reached env p = true /\ parent_span_id s = Some 0 /\
             completed s /\ status s = status_after (work_failure env p)
    | _ => False
    end.
Proof.
  open_env env. follow.
  all: split; [eexists; repeat split; discriminate|].
  all: split; [vm_compute; settle; reflexivity|].
  all: split; [repeat constructor; vm_compute; intuition discriminate|].
  all: intros []; vm_compute; repeat split; try first [reflexivity | discriminate].
  all: settle; reflexivity.
Qed.



(** ** Intervals of completed spans *)




(** ** The fan-out *)




(** ** Order of closing on one execution path *)

Lemma replay_app (l1 l2 : list event) (open : list nat) :
  replay (l1 ++ l2) open =
  match replay l1 open with
  | Some open' => replay l2 open'
  | None => None
  end.
Proof.
  revert open. induction l1 as [|[id|id] l1 IH]; intros open; cbn.
  - reflexivity.
  - apply IH.
  - destruct open as [|top below]; [reflexivity|].
    destruct (id =? top); [apply IH|reflexivity].
Qed.

(** While no close of [x] is replayed, [x] stays on the stack and only
    spans opened meanwhile lie above it. *)
Lemma replay_keeps (l : list event) (above below : list nat) (x : nat)
      (open' : list nat) :
  replay l (above ++ x :: below) = Some open' ->
  ~ In (Closed x) l ->
  exists above', open' = (above' ++ x :: below)%list /\
                 forall y, In y above' -> In y above \/ In (Opened y) l.
Proof.
  revert above. induction l as [|[id|id] l IH]; intros above Hrun Hno; cbn in Hrun.
  - injection Hrun as <-. exists above. split; [reflexivity|]. auto.
  - destruct (IH (id :: above) Hrun) as (above' & -> & Hfrom).
    { intros Hin. apply Hno. right. exact Hin. }
    exists above'. split; [reflexivity|].
    intros y Hy. destruct (Hfrom y Hy) as [[<-|Hin]|Hin].
    + right. left. reflexivity.
    + left. exact Hin.
    + right. right. exact Hin.
  - destruct above as [|top above]; cbn in Hrun.
    + destruct (Nat.eqb_spec id x) as [->|Hne].
      * exfalso. apply Hno. left. reflexivity.
      * discriminate Hrun.
    + destruct (Nat.eqb_spec id top) as [->|Hne]; [|discriminate Hrun].
      destruct (IH above Hrun) as (above' & -> & Hfrom).
      { intros Hin. apply Hno. right. exact Hin. }
      exists above'. split; [reflexivity|].
      intros y Hy. destruct (Hfrom y Hy) as [Hin|Hin].
      * left. right. exact Hin.
      * right. right. exact Hin.
Qed.

(** Under the stack discipline, a span [b] opened while [a] is open is
    closed before [a] is. *)
Lemma replay_lifo (l1 l2 l3 l4 : list event) (a b : nat) (open open' : list nat) :
  replay (l1 ++ Opened a :: l2 ++ Opened b :: l3 ++ Closed a :: l4) open = Some open' ->
  a <> b ->
  ~ In (Opened a) l3 ->
  In (Closed b) l3.
Proof.
  intros Hrun Hab Hfresh.
  destruct (in_dec event_eq_dec (Closed b) l3) as [Hin|Hno]; [exact Hin|exfalso].
  rewrite replay_app in Hrun.
  destruct (replay l1 open) as [s1|]; [|discriminate Hrun].
  cbn in Hrun. rewrite replay_app in Hrun.
  destruct (replay l2 (a :: s1)) as [s2|]; [|discriminate Hrun].
  cbn in Hrun. rewrite replay_app in Hrun.
  destruct (replay l3 (b :: s2)) as [s3|] eqn:H3; [|discriminate Hrun].
  destruct (replay_keeps l3 [] s2 b s3 H3 Hno) as (above & -> & Hfrom).
  cbn in Hrun. destruct above as [|top above]; cbn in Hrun.
  - destruct (Nat.eqb_spec a b); [contradiction|discriminate Hrun].
  - destruct (Nat.eqb_spec a top) as [->|Hne]; [|discriminate Hrun].
    destruct (Hfrom top) as [[]|Hin]; [left; reflexivity|].
    contradiction.
Qed.

Lemma events_distinct (env : environment) :
  NoDup (events (final_state env)).
Proof.
  open_env env. follow.
  all: apply (bool_decide_unpack _); vm_compute; exact I.
Qed.

Lemma paths_disciplined (env : environment) (t : nat) :
  is_Some (replay (path_events (final_state env) t) []).
Proof.
  open_env env. unfold path_events. follow.
  all: destruct t as [|[|[|[|t]]]]; vm_compute; eexists; reflexivity.
Qed.

(** C9: on every execution path of an invocation (the handler's own
    coroutine, and each gathered task) spans close in the reverse order of
    their opening: when span [b] is opened while span [a] of the same path
    is open, [b] is closed before [a] is. *)
Theorem spans_close_lifo (env : environment) (t : nat)
        (l1 l2 l3 l4 : list event) (a b : nat) :
  path_events (final_state env) t =
    (l1 ++ Opened a :: l2 ++ Opened b :: l3 ++ Closed a :: l4)%list ->
  In (Closed b) l3.
Proof.
  intros Hpath.
  destruct (paths_disciplined env t) as [open Hrun].
  assert (Hnd : NoDup (path_events (final_state env) t)).
  { apply NoDup_filter, events_distinct. }
  rewrite Hpath in Hrun, Hnd.
  apply NoDup_app in Hnd as (_ & _ & Hnd).
  apply NoDup_cons in Hnd as [Hfresh _].
  rewrite list_elem_of_In, !in_app_iff in Hfresh. cbn in Hfresh.
  rewrite in_app_iff in Hfresh.
  apply (replay_lifo l1 l2 l3 l4 a b [] open Hrun).
  - intros <-. apply Hfresh. right. left. reflexivity.
  - intros Hin. apply Hfresh. right. right. left. exact Hin.
Qed.

Lemma spans_close_lifo_witness :
  In (Closed 1)
     [Closed 1; Opened 2; Closed 2; Opened 6; Closed 6; Opened 7; Closed 7].
Proof.
  apply (spans_close_lifo env_ok 0 [] []
           [Closed 1; Opened 2; Closed 2; Opened 6; Closed 6; Opened 7; Closed 7]
           [] 0 1).
  reflexivity.
Defined.

(** ** Spans of the fan-out *)

(** C10: the handler opens no span for the fan-out itself: the spans of its
    own path are named complex_operation, database_query, processing,
    external_api_call or final_computation; as soon as the fan-out is
    reached the spans of the gathered tasks are exactly async_task1,
    async_task2 and async_task3, the prefix async_ followed by the name of
    the sub-task; and each of them, as every span other than the root, has
    the root span complex_operation as its parent. *)
Theorem sub_tasks_hang_off_root (env : environment) :
  (exists r, is_root (final_state env) r /\ name r = "complex_operation") /\
  Forall (fun s => In (name s) ["complex_operation"; "database_query"; "processing";
                                "external_api_call"; "final_computation"])
         (handler_spans (final_state env)) /\
  map name (sub_task_spans (final_state env)) =
    (if fan_out_reached env
     then map (String.append "async_") ["task1"; "task2"; "task3"]
     else []) /\
  Forall (fun s => parent_span_id s = Some 0) (sub_task_spans (final_state env)) /\
  Forall (fun s => parent_span_id s = Some 0) (descendants (final_state env)).
Proof.
  open_env env. follow.
  all: split; [eexists; repeat split|].
  all: vm_compute; split;
    [repeat (apply List.Forall_cons; [auto 10|]); apply List.Forall_nil|].
  all: split; [reflexivity|]; split; repeat constructor.
Qed.

(** * Properties of the exporter *)

Lemma submit_bounded (cfg : config) (ex : exporter) (s : span) :
  length (buffer (submit cfg ex s)) <= buffer_capacity cfg.
Proof.
  unfold submit. cbn. rewrite length_drop. lia.
Qed.

Lemma submit_all_overflow (cfg : config) (ss : list span) :
  forall ex : exporter,
    length (buffer ex) <= buffer_capacity cfg ->
    buffer (submit_all cfg ex ss) =
      drop (length (buffer ex ++ ss) - buffer_capacity cfg) (buffer ex ++ ss) /\
    drop_counter (submit_all cfg ex ss) =
      drop_counter ex + (length (buffer ex ++ ss) - buffer_capacity cfg).
Proof.
  induction ss as [|s ss IH]; intros ex Hcap.
  - cbn. rewrite app_nil_r.
    replace (length (buffer ex) - buffer_capacity cfg) with 0 by lia.
    split; [reflexivity|lia].
  - cbn [submit_all fold_left].
    destruct (IH (submit cfg ex s) (submit_bounded cfg ex s)) as [Hbuf Hcnt].
    fold (submit_all cfg (submit cfg ex s) ss). rewrite Hbuf, Hcnt.
    unfold submit. cbn [buffer drop_counter].
    rewrite !length_app, length_drop, !length_app. cbn [length].
    destruct (decide (length (buffer ex) < buffer_capacity cfg)) as [Hlt|Hge].
    + replace (length (buffer ex) + 1 - buffer_capacity cfg) with 0 by lia.
      rewrite drop_0, <- app_assoc. cbn [app].
      split; [f_equal|]; lia.
    + replace (length (buffer ex) + 1 - buffer_capacity cfg) with 1 by lia.
      assert (Hshift : (drop 1 (buffer ex ++ [s]) ++ ss)%list =
                       drop 1 (buffer ex ++ s :: ss)).
      { destruct (buffer ex) as [|b0 bs]; cbn; [reflexivity|].
        rewrite !drop_0, <- app_assoc. reflexivity. }
      rewrite Hshift, drop_drop. split; [f_equal|]; lia.
Qed.

Lemma deliver_exhausted (collector : nat -> list span -> bool) (batch : list span)
      (remaining : nat) :
  forall attempt,
    (forall j, attempt <= j < attempt + remaining -> collector j batch = false) ->
    deliver collector batch attempt remaining = (DroppedDeliveryExhausted, remaining).
Proof.
  induction remaining as [|r IH]; intros attempt Hfail; cbn.
  - reflexivity.
  - rewrite (Hfail attempt) by lia.
    rewrite (IH (S attempt)); [reflexivity|].
    intros j Hj. apply Hfail. lia.
Qed.

Lemma deliver_succeeds (collector : nat -> list span -> bool) (batch : list span)
      (remaining : nat) :
  forall attempt k,
    attempt <= k < attempt + remaining ->
    collector k batch = true ->
    (forall j, attempt <= j < k -> collector j batch = false) ->
    deliver collector batch attempt remaining = (Delivered, S (k - attempt)).
Proof.
  induction remaining as [|r IH]; intros attempt k Hk Hok Hfail; cbn.
  - lia.
  - destruct (decide (k = attempt)) as [->|Hne].
    + rewrite Hok. f_equal. lia.
    + rewrite (Hfail attempt) by lia.
      rewrite (IH (S attempt) k); [f_equal; lia|lia|exact Hok|].
      intros j Hj. apply Hfail. lia.
Qed.

(** C6: a span submitted while the buffer, with it, holds no more than
    [buffer_capacity] spans is kept and nothing is dropped; spans submitted
    beyond the capacity evict the oldest buffered spans first, the buffer
    keeping the most recently submitted ones, and the drop counter grows by
    exactly the number of spans in excess of the capacity.  [submit] always
    returns, with the new state only. *)
Theorem buffer_drops_oldest (cfg : config) (ex : exporter) (ss : list span) :
  length (buffer ex) <= buffer_capacity cfg ->
  let excess := length (buffer ex ++ ss) - buffer_capacity cfg in
  buffer (submit_all cfg ex ss) = drop excess (buffer ex ++ ss) /\
  drop_counter (submit_all cfg ex ss) = drop_counter ex + excess /\
  (length (buffer ex ++ ss) <= buffer_capacity cfg ->
   buffer (submit_all cfg ex ss) = (buffer ex ++ ss)%list /\
   drop_counter (submit_all cfg ex ss) = drop_counter ex).
Proof.
  intros Hcap excess.
  destruct (submit_all_overflow cfg ss ex Hcap) as [Hbuf Hcnt].
  fold excess in Hbuf, Hcnt.
  split; [exact Hbuf|]. split; [exact Hcnt|].
  intros Hfit. rewrite Hbuf, Hcnt.
  replace excess with 0 by (unfold excess; lia).
  rewrite drop_0. split; [reflexivity|lia].
Qed.

Lemma buffer_drops_oldest_witness :
  buffer (submit_all (mkConfig 5 3 (fun k => 2 ^ k)) empty eight) = map sample (seq 3 5) /\
  drop_counter (submit_all (mkConfig 5 3 (fun k => 2 ^ k)) empty eight) = 3.
Proof.
  destruct (buffer_drops_oldest (mkConfig 5 3 (fun k => 2 ^ k)) empty eight)
    as (Hbuf & Hcnt & _).
  - cbn. lia.
  - split; [exact Hbuf|exact Hcnt].
Defined.

(** C7: a batch whose delivery fails on each of the [export_retry_limit]
    attempts is attempted exactly that many times, with a wait between
    consecutive attempts, and is then dropped, the failure counter growing
    by one; a batch accepted on attempt [k], with [k] at most the limit, is
    Delivered after [k] attempts and the failure counter does not move; in
    both cases the buffer is emptied, and the result the workflow gives its
    caller does not depend on the collector. *)
Theorem delivery_is_bounded (cfg : config) (collector : nat -> list span -> bool)
        (ex : exporter) :
  ((forall j, 1 <= j <= export_retry_limit cfg -> collector j (buffer ex) = false) ->
   flush cfg collector ex =
     (mkReport DroppedDeliveryExhausted (export_retry_limit cfg)
               (map (backoff cfg) (seq 1 (export_retry_limit cfg - 1))),
      mkExporter [] (drop_counter ex) (S (failure_counter ex)) (delivered ex))) /\
  (forall k,
     1 <= k <= export_retry_limit cfg ->
     collector k (buffer ex) = true ->
     (forall j, 1 <= j < k -> collector j (buffer ex) = false) ->
     flush cfg collector ex =
       (mkReport Delivered k (map (backoff cfg) (seq 1 (k - 1))),
        mkExporter [] (drop_counter ex) (failure_counter ex)
                   (delivered ex ++ [buffer ex]))) /\
  (forall env, fst (traced_invocation cfg collector env) = result env).
Proof.
  split; [|split].
  - intros Hfail. unfold flush.
    rewrite deliver_exhausted; [reflexivity|].
    intros j Hj. apply Hfail. lia.
  - intros k Hk Hok Hfail. unfold flush.
    rewrite (deliver_succeeds collector (buffer ex) (export_retry_limit cfg) 1 k);
      [|lia|exact Hok|exact Hfail].
    replace (S (k - 1)) with k by lia. reflexivity.
  - intros env. unfold traced_invocation, result.
    destruct (invoke env) as [r st]. reflexivity.
Qed.

Lemma delivery_is_bounded_witness :
  flush sample_config refuses loaded =
    (mkReport DroppedDeliveryExhausted 3 [2; 4], mkExporter [] 0 1 []) /\
  flush sample_config accepts_second loaded =
    (mkReport Delivered 2 [2], mkExporter [] 0 0 [map sample (seq 0 2)]).
Proof.
  split.
  - apply (proj1 (delivery_is_bounded sample_config refuses loaded)).
    intros j Hj. reflexivity.
  - apply (proj1 (proj2 (delivery_is_bounded sample_config accepts_second loaded)) 2).
    + cbn. lia.
    + reflexivity.
    + intros j Hj. assert (j = 1) as -> by lia. reflexivity.
Defined.

(** * Further properties of the handler *)

(** ** Time *)

(** X1: when every phase succeeds the invocation starts at the arrival
    time and lasts the sum of the sequential delays plus the largest of the
    three sub-task delays: the fan-out costs its slowest sub-task, not the
    sum.  The root span covers exactly that time. *)
Theorem success_latency (env : environment) :
  all_phases_succeed env ->
  now (final_state env) = expected_latency env /\
  exists r, is_root (final_state env) r /\ start_time r = 0 /\
            end_time r = Some (expected_latency env).
Proof.
  intros (Hdb & Hpr & (H1 & H2 & H3) & Hext & Hfin).
  open_env env. unfold expected_latency, external_failure in *. cbn in *. subst.
  destruct r_net as [e | code [j | e]]; try discriminate.
  follow.
  all: split; [lia|]; eexists; split; [repeat split|]; split; [reflexivity|].
  all: cbn; f_equal; lia.
Qed.

Lemma success_latency_witness :
  now (final_state env_ok) = 18 /\
  exists r, is_root (final_state env_ok) r /\ start_time r = 0 /\
            end_time r = Some 18.
Proof.
  apply (success_latency env_ok). repeat split; reflexivity.
Defined.

(** X2: the three sub-task spans are opened together, at the end of the
    processing phase, whatever their delays; when none of them raises, each
    lasts exactly its own delay. *)
Theorem sub_tasks_run_concurrently (env : environment) :
  fan_out_reached env = true ->
  map start_time (sub_task_spans (final_state env)) =
    [fan_out_start env; fan_out_start env; fan_out_start env] /\
  (fan_out_succeeds env = true ->
   map end_time (sub_task_spans (final_state env)) =
     [Some (fan_out_start env + delay (task1_sleep env));
      Some (fan_out_start env + delay (task2_sleep env));
      Some (fan_out_start env + delay (task3_sleep env))]).
Proof.
  intros Hreach. open_env env.
  unfold fan_out_reached, fan_out_succeeds, no_exception, fan_out_start in *.
  cbn in Hreach. use_hyps. split.
  - follow; calc; reflexivity.
  - intros Hs. cbn in Hs. use_hyps. follow; calc.
    all: repeat f_equal; lia.
Qed.

Lemma sub_tasks_run_concurrently_witness :
  map start_time (sub_task_spans (final_state env_ok)) = [5; 5; 5] /\
  map end_time (sub_task_spans (final_state env_ok)) = [Some 9; Some 6; Some 10].
Proof.
  destruct (sub_tasks_run_concurrently env_ok eq_refl) as [Hstart Hend].
  split; [exact Hstart|]. apply Hend. reflexivity.
Defined.

(** ** Hand-over to the span processor *)


(** X4: a span is left open at the end of an invocation only when it is the
    span of a sub-task that was still suspended after a sibling raised; it
    then carries no error status.  Every span of the handler's own path is
    completed. *)
Theorem open_spans_are_abandoned_sub_tasks (env : environment) (s : span) :
  In s (spans (final_state env)) ->
  end_time s = None ->
  task s <> 0 /\ status s = Success /\
  fan_out_reached env = true /\ fan_out_succeeds env = false.
Proof.
  intros Hin Hopen.
  assert (Hall : Forall (fun s => end_time s = None ->
                   task s <> 0 /\ status s = Success /\
                   fan_out_reached env = true /\ fan_out_succeeds env = false)
                        (spans (final_state env))).
  { clear. open_env env. follow.
    all: repeat (apply List.Forall_cons;
                 [cbn [end_time task status]; intros Hn;
                  first [ discriminate Hn
                        | split; [discriminate|]; split; [reflexivity|];
                          split; [reflexivity|]; vm_compute; settle; reflexivity ]|]);
         apply List.Forall_nil. }
  rewrite List.Forall_forall in Hall. exact (Hall s Hin Hopen).
Qed.

Lemma open_spans_are_abandoned_sub_tasks_witness :
  let s := mkSpan "async_task2" 4 (Some 0) 2 5 None Success in
  task s <> 0 /\ status s = Success /\
  fan_out_reached env_task1_fails = true /\ fan_out_succeeds env_task1_fails = false.
Proof.
  apply (open_spans_are_abandoned_sub_tasks env_task1_fails).
  - vm_compute. auto 10.
  - reflexivity.
Defined.

(** ** Outbound requests *)

(** X5: the handler sends exactly one request, to the todos URL, when the
    external call is reached, and none when an earlier phase or a sub-task
    has failed. *)
Theorem one_request_when_reached (env : environment) :
  requests_sent (final_state env) =
    if reached env ExternalCall then [todos_url] else [].
Proof.
  open_env env. follow.
  all: vm_compute; settle; reflexivity.
Qed.

(** ** Outcome of the handler *)

(** X6: the handler returns only when every phase has succeeded, and what it
    returns is then the object with the two members message and
    external_data, the latter being the decoded body of the reply. *)
Theorem returns_only_on_success (env : environment) (j : json) :
  result env = Returned j ->
  all_phases_succeed env /\
  exists data, external_data_of (network env) = Some data /\
               j = success_response data.
Proof.
  open_env env. unfold all_phases_succeed, sub_tasks_succeed, external_failure,
    external_data_of. cbn [database_query_sleep processing_sleep task1_sleep
    task2_sleep task3_sleep network final_computation_sleep thrown reply].
  follow; intros Hres; try discriminate Hres.
  all: injection Hres as <-.
  all: split; [repeat split|]; eexists; split; reflexivity.
Qed.

Lemma returns_only_on_success_witness :
  all_phases_succeed env_ok /\
  exists data, external_data_of (network env_ok) = Some data /\
               success_response todo = success_response data.
Proof.
  apply (returns_only_on_success env_ok (success_response todo)). reflexivity.
Defined.

(** X7: the status of the root span mirrors the outcome of the handler:
    success when it returns, error with the exception it raises otherwise;
    and the root span ends at the time the handler ends. *)
Theorem root_mirrors_outcome (env : environment) :
  exists r, is_root (final_state env) r /\
            status r = status_of (result env) /\
            end_time r = Some (now (final_state env)).
Proof.
  open_env env. follow.
  all: eexists; split; [repeat split|]; split; reflexivity.
Qed.

(** ** Logging *)


(** X9: the external call logs the status code of every reply it receives,
    before decoding the body: a reply whose body does not decode is logged
    as completed although the span ends with an error, and only a transport
    failure leaves no record. *)
Theorem reply_is_logged_before_decoding (env : environment) :
  reached env ExternalCall = true ->
  exists x,
    spans_named "external_api_call" (final_state env) = [x] /\
    status x = status_after (external_failure (network env)) /\
    map log_message (records_of (final_state env) (span_id x)) =
      match reply (network env) with
      | TransportFailure _ => []
      | Response code _ => [external_log code]
      end.
Proof.
  intros Hreach. open_env env.
  unfold reached, fan_out_reached, fan_out_succeeds, no_exception in *.
  cbn in Hreach. use_hyps. follow.
  all: eexists; split; [reflexivity|]; split; reflexivity.
Qed.

Lemma reply_is_logged_before_decoding_witness :
  exists x,
    spans_named "external_api_call" (final_state env_bad_body) = [x] /\
    status x = Error "JSONDecodeError: Expecting value" /\
    map log_message (records_of (final_state env_bad_body) (span_id x)) =
      [external_log 200].
Proof.
  apply (reply_is_logged_before_decoding env_bad_body). reflexivity.
Defined.

(** ** Which failure the fan-out reports *)

(** X11: when sub-tasks raise, the handler raises the exception of the one
    resumed first: the raising sub-task with the smallest delay, and among
    equal delays the one passed to gather first. *)
Theorem first_failure_wins (env : environment) :
  fan_out_reached env = true ->
  fan_out_succeeds env = false ->
  exists e, earliest_failure env = Some e /\ result env = Raised e.
Proof.
  intros Hreach Hfail. open_env env.
  unfold fan_out_reached, fan_out_succeeds, no_exception, earliest_failure in *.
  cbn in Hreach, Hfail. use_hyps; follow.
  all: calc; settle_all.
  all: first [exfalso; lia | eexists; split; reflexivity].
Qed.

Lemma first_failure_wins_witness :
  exists e, earliest_failure env_two_fail = Some e /\ result env_two_fail = Raised e.
Proof.
  apply (first_failure_wins env_two_fail); reflexivity.
Defined.

(** ** The log never steers the handler *)

Lemma same_trace_refl (st : tracer_state) : same_trace st st.
Proof. repeat split. Qed.

Lemma log_blind_ret {A B} (RV : A -> B -> Prop) (a : A) (b : B) :
  RV a b -> log_blind RV (ret a) (ret b).
Proof. intros Hab ctx st1 st2 Hst. split; [exact Hab|exact Hst]. Qed.

Lemma log_blind_bind {A B C D} (RV : A -> B -> Prop) (RW : C -> D -> Prop)
      (m1 : M A) (m2 : M B) (k1 : A -> M C) (k2 : B -> M D) :
  log_blind RV m1 m2 ->
  (forall a b, RV a b -> log_blind RW (k1 a) (k2 b)) ->
  log_blind RW (bind m1 k1) (bind m2 k2).
Proof.
  intros Hm Hk ctx st1 st2 Hst. unfold bind.
  destruct (Hm ctx st1 st2 Hst) as [Hout Hst'].
  destruct (m1 ctx st1) as [[a|e1] s1], (m2 ctx st2) as [[b|e2] s2];
    cbn in Hout, Hst'; try contradiction.
  - apply Hk; assumption.
  - split; assumption.
Qed.

Lemma log_blind_span {A B} (RV : A -> B -> Prop) (nm : string)
      (b1 : M A) (b2 : M B) :
  log_blind RV b1 b2 ->
  log_blind RV (start_as_current_span nm b1) (start_as_current_span nm b2).
Proof.
  intros Hb ctx st1 st2 (Hnow & Hspans & Hq & Hev & Hreq).
  unfold start_as_current_span, span_enter. rewrite Hnow, Hspans, Hq, Hev.
  match goal with
  | |- context [b1 ?c ?s1] =>
      match goal with
      | |- context [b2 c ?s2] =>
          assert (Hin : same_trace s1 s2) by (repeat split; assumption);
          destruct (Hb c s1 s2 Hin) as [Hout (Hn & Hs & Hq' & He & Hr)];
          destruct (b1 c s1) as [r1 t1], (b2 c s2) as [r2 t2]
      end
  end.
  cbn in Hout, Hn, Hs, Hq', He, Hr.
  assert (Hstatus : status_of r1 = status_of r2).
  { destruct r1, r2; cbn in Hout; try contradiction; cbn; congruence. }
  split; [exact Hout|].
  unfold span_exit; cbn. rewrite Hn, Hs, Hq', He, Hr, Hstatus. repeat split.
Qed.

Lemma log_blind_logger (m1 m2 : string) :
  log_blind (fun _ _ => True) (logger_info m1) (logger_info m2).
Proof. intros ctx st1 st2 Hst. split; [exact I|exact Hst]. Qed.

Lemma log_blind_sleep (w : await_result) :
  log_blind (fun _ _ => True) (asyncio_sleep w) (asyncio_sleep w).
Proof.
  intros ctx st1 st2 (Hnow & Hspans & Hq & Hev & Hreq).
  unfold asyncio_sleep, resumption, related, same_trace; cbn.
  rewrite Hnow. destruct (thrown w); cbn; repeat split; assumption.
Qed.

Lemma log_blind_get (n1 n2 : http_exchange) (url : string) :
  same_reply n1 n2 ->
  log_blind same_body (requests_get n1 url) (requests_get n2 url).
Proof.
  intros [Hel Hrep] ctx st1 st2 (Hnow & Hspans & Hq & Hev & Hreq).
  unfold requests_get, related, same_trace. rewrite Hel, Hnow, Hreq.
  destruct (reply n1) as [e1|c1 b1], (reply n2) as [e2|c2 b2];
    try contradiction; cbn; repeat split; assumption.
Qed.

Lemma log_blind_json (r1 r2 : response) :
  same_body r1 r2 -> log_blind eq (response_json r1) (response_json r2).
Proof.
  unfold same_body, response_json. intros ->.
  intros ctx st1 st2 Hst. destruct (response_body r2); split; try exact Hst; reflexivity.
Qed.

Lemma same_coroutine_async (nm : string) (w : await_result) :
  same_coroutine (async_operation nm w) (async_operation nm w).
Proof.
  intros ctx st1 st2 (Hnow & Hspans & Hq & Hev & Hreq).
  unfold async_operation, span_enter; cbn. rewrite Hnow, Hspans, Hq, Hev.
  split; [|repeat split; assumption].
  split; [reflexivity|]. cbn.
  intros t1 t2 (Hn & Hs & Hq' & He & Hr).
  destruct (thrown w); cbn; unfold related, same_trace; cbn;
    rewrite Hn, Hs, Hq', He, Hr; repeat split.
Qed.

Lemma same_step_spawn (cs1 cs2 : list coroutine) :
  Forall2 same_coroutine cs1 cs2 ->
  forall ctx i st1 st2, same_trace st1 st2 ->
    Forall2 same_step (fst (spawn_all ctx i cs1 st1)) (fst (spawn_all ctx i cs2 st2)) /\
    same_trace (snd (spawn_all ctx i cs1 st1)) (snd (spawn_all ctx i cs2 st2)).
Proof.
  induction 1 as [|c1 c2 cs1 cs2 Hc _ IH]; intros ctx i st1 st2 Hst; cbn.
  - split; [constructor|exact Hst].
  - destruct (Hc (mkContext (current_span ctx) i) st1 st2 Hst) as [Hp Hst'].
    destruct (c1 _ st1) as [p1 s1], (c2 _ st2) as [p2 s2]. cbn in Hp, Hst'.
    destruct (IH ctx (S i) s1 s2 Hst') as [Hps Hst''].
    destruct (spawn_all ctx (S i) cs1 s1) as [ps1 u1],
             (spawn_all ctx (S i) cs2 s2) as [ps2 u2]. cbn in *.
    split; [constructor; assumption|assumption].
Qed.

Lemma same_step_schedule (p q : suspended) (ps qs : list suspended) :
  same_step p q -> Forall2 same_step ps qs ->
  Forall2 same_step (schedule p ps) (schedule q qs).
Proof.
  intros Hpq. induction 1 as [|p' q' ps qs Hpq' Hrest IH]; cbn [schedule].
  - constructor; [exact Hpq|constructor].
  - pose proof Hpq as [Hat _]. pose proof Hpq' as [Hat' _]. rewrite Hat, Hat'.
    destruct (resume_at q <? resume_at q').
    + constructor; [exact Hpq|]. constructor; [exact Hpq'|exact Hrest].
    + constructor; [exact Hpq'|exact IH].
Qed.

Lemma same_step_timer_order (ps qs : list suspended) :
  Forall2 same_step ps qs ->
  Forall2 same_step (timer_order ps) (timer_order qs).
Proof.
  unfold timer_order. intros Hps.
  assert (Hacc : Forall2 same_step (@nil suspended) []) by constructor.
  revert Hacc. generalize (@nil suspended) at 1 3. generalize (@nil suspended).
  induction Hps as [|p q ps qs Hpq _ IH]; intros acc2 acc1 Hacc; cbn.
  - exact Hacc.
  - apply IH. apply same_step_schedule; assumption.
Qed.

Lemma same_trace_run_due (t : nat) (ps qs : list suspended) :
  Forall2 same_step ps qs ->
  forall st1 st2, same_trace st1 st2 ->
                  same_trace (run_due t ps st1) (run_due t qs st2).
Proof.
  induction 1 as [|p q ps qs [Hat Hres] _ IH]; intros st1 st2 Hst; cbn [run_due].
  - exact Hst.
  - rewrite Hat. destruct (resume_at q <=? t); [|exact Hst].
    apply IH. apply Hres. exact Hst.
Qed.

Lemma related_run (ps qs : list suspended) :
  Forall2 same_step ps qs ->
  forall st1 st2, same_trace st1 st2 ->
    related (fun _ _ => True) (run_until_first_exception ps st1)
            (run_until_first_exception qs st2).
Proof.
  induction 1 as [|p q ps qs [Hat Hres] Hrest IH]; intros st1 st2 Hst;
    cbn [run_until_first_exception].
  - split; [exact I|exact Hst].
  - assert (Hadv : same_trace (advance (resume_at p) st1) (advance (resume_at q) st2)).
    { destruct Hst as (Hnow & Hspans & Hq & Hev & Hreq).
      unfold advance, same_trace; cbn. rewrite Hat, Hnow. repeat split; assumption. }
    destruct (Hres _ _ Hadv) as [Hout Hst'].
    destruct (resume p _) as [[[]|e1] s1], (resume q _) as [[[]|e2] s2];
      cbn in Hout, Hst'; try contradiction.
    + apply IH. exact Hst'.
    + split; [exact Hout|]. cbn.
      destruct Hst' as (Hnow & Hrest').
      rewrite Hnow. apply same_trace_run_due; [exact Hrest|].
      split; [exact Hnow|exact Hrest'].
Qed.

Lemma log_blind_gather (cs1 cs2 : list coroutine) :
  Forall2 same_coroutine cs1 cs2 ->
  log_blind (fun _ _ => True) (gather cs1) (gather cs2).
Proof.
  intros Hcs ctx st1 st2 Hst. unfold gather.
  destruct (same_step_spawn cs1 cs2 Hcs ctx 1 st1 st2 Hst) as [Hps Hst'].
  destruct (spawn_all ctx 1 cs1 st1) as [ps1 s1],
           (spawn_all ctx 1 cs2 st2) as [ps2 s2]. cbn in Hps, Hst'.
  apply related_run; [apply same_step_timer_order; exact Hps|exact Hst'].
Qed.

Lemma log_blind_external (n1 n2 : http_exchange) (url : string) :
  same_reply n1 n2 ->
  log_blind eq (external_api_call n1 url) (external_api_call n2 url).
Proof.
  intros Hn. unfold external_api_call. apply log_blind_span.
  eapply log_blind_bind; [apply log_blind_get; exact Hn|].
  intros r1 r2 Hr.
  eapply log_blind_bind; [apply log_blind_logger|].
  intros _ _ _. apply log_blind_json. exact Hr.
Qed.

Lemma same_reply_with_status_code (env : environment) (code : nat) :
  same_reply (network (with_status_code code env)) (network env).
Proof.
  unfold with_status_code, same_reply; cbn.
  split; [reflexivity|]. destruct (reply (network env)); reflexivity.
Qed.

(** X10: the status code of the reply reaches the log and nothing else: with
    another code the handler gives the same result, the same spans and the
    same hand-over to the processor, at the same times. *)
Theorem status_code_is_only_logged (env : environment) (code : nat) :
  result (with_status_code code env) = result env /\
  same_trace (final_state (with_status_code code env)) (final_state env).
Proof.
  assert (Hrel : log_blind eq (complex_operation (with_status_code code env))
                              (complex_operation env)).
  { unfold complex_operation. apply log_blind_span.
    eapply log_blind_bind; [apply log_blind_logger|]. intros _ _ _.
    eapply log_blind_bind;
      [apply log_blind_span; eapply log_blind_bind;
       [apply log_blind_sleep|intros _ _ _; apply log_blind_logger]|].
    intros _ _ _.
    eapply log_blind_bind;
      [apply log_blind_span; eapply log_blind_bind;
       [apply log_blind_sleep|intros _ _ _; apply log_blind_logger]|].
    intros _ _ _.
    eapply log_blind_bind;
      [apply log_blind_gather;
       repeat (apply List.Forall2_cons; [apply same_coroutine_async|]);
       apply List.Forall2_nil|].
    intros _ _ _.
    eapply log_blind_bind;
      [apply log_blind_external, same_reply_with_status_code|].
    intros d1 d2 ->.
    eapply log_blind_bind;
      [apply log_blind_span; eapply log_blind_bind;
       [apply log_blind_sleep|intros _ _ _; apply log_blind_logger]|].
    intros _ _ _. apply log_blind_ret. reflexivity. }
  destruct (Hrel root_context initial_state initial_state
                 (same_trace_refl initial_state)) as [Hout Hst].
  unfold result, final_state, invoke, async_action.
  split; [|exact Hst].
  destruct (complex_operation (with_status_code code env) root_context initial_state)
    as [[j1|e1] s1],
    (complex_operation env root_context initial_state) as [[j2|e2] s2];
    cbn in Hout; try contradiction; cbn; congruence.
Qed.

(** ** Requests are served in isolation *)

Section Framing.

Variable before : tracer_state.























End Framing.

